(** * The watch loop of the agent cache: [Cache.Notify] (agent/cache/watch.go)

    [Notify] validates the requested cache type and then starts one goroutine
    that keeps issuing blocking fetches, hands every result whose index moved
    past the cursor to the caller's channel, and backs off after fetches that
    made no progress.

    The goroutine is embedded as a state machine.  Its control points are the
    places where the source interacts with the world (the two [ctx.Err()]
    checks, the call of [getWithIndex], the two [select] statements); one
    transition consumes what the world answered there and yields the
    observable actions performed on the way to the next control point. *)

From Stdlib Require Import NArith ZArith Lia List Sorted.
From stdpp Require Import base option list sorting strings gmap.

Local Open Scope N_scope.

(** ** Go data *)

(** [uint] is 32 or 64 bits wide depending on the target. *)
Inductive word_size := W32 | W64.

Definition uint_modulus (w : word_size) : N :=
  match w with W32 => 2 ^ 32 | W64 => 2 ^ 64 end.

(** A Go [error]: [None] is [nil], [Some msg] an error with its message. *)
Definition error := option string.

Definition is_nil (err : error) : bool :=
  match err with None => true | Some _ => false end.

(** [context.Context] and [chan<- UpdateEvent] are handles; what happens on
    them is an input of the state machine. *)
Definition Context := nat.
Definition chan := nat.

(** Modelled from the spec: the type registry consulted by [Notify]
    ([c.types], [typeEntry], the [Type] interface) is declared outside
    watch.go; section 6 gives its interface, a lookup by type name and
    [supportsBlocking]. *)
Record CacheType := { SupportsBlocking : bool }.
Record typeEntry := { Type_ : CacheType }.
Record Cache := { types : gmap string typeEntry }.

Section Watch.

(** [Request] and the fetched [interface{}] result are opaque to the loop. *)
Variable Request : Type.
Variable payload : Type.

(** [ResultMeta] is declared outside watch.go; the loop reads [meta.Index]
    (a [uint64]) and nothing else.  An index is only ever compared and
    copied, never computed with, so it is kept as a natural number. *)
Variable ResultMeta : Type.
Variable Index : ResultMeta -> N.

(** [backOffWait] is defined outside watch.go: consecutive failures to a
    [time.Duration] (a signed 64-bit count of nanoseconds). *)
Variable backOffWait : N -> Z.

(** Width of [uint], the type of the [failures] counter. *)
Variable arch : word_size.

Record UpdateEvent := {
  CorrelationID : string;
  Result : payload;
  Meta : ResultMeta;
  Err : error
}.

(** What the goroutine's closure captures from the call of [Notify]. *)
Record watch := {
  w_ctx : Context;
  w_t : string;
  w_r : Request;
  w_correlationID : string;
  w_ch : chan
}.

(** ** The goroutine *)

Inductive pc :=
| AtCheckBefore                                  (* line 73 *)
| InGet                                          (* line 78, inside getWithIndex *)
| AtCheckAfter (res : payload) (meta : ResultMeta) (err : error)  (* line 81 *)
| InSend (res : payload) (meta : ResultMeta) (err : error)        (* lines 89-93 *)
| InSleep (wait : Z)                             (* lines 108-112 *)
| Returned                                       (* the goroutine returned *)
| Panicked.                                      (* run-time panic *)

Record session := {
  index : N;        (* the cursor, a uint64 *)
  failures : N;     (* a uint *)
  point : pc
}.

(** What the world answers at a control point. *)
Inductive input :=
| CtxErr (cancelled : bool)          (* [ctx.Err() != nil], lines 73 and 81 *)
| GetReturns (res : payload) (meta : ResultMeta) (err : error)  (* line 78 *)
| SendCompletes                      (* [case ch <- u] proceeds, channel open *)
| SendOnClosed                       (* [case ch <- u] proceeds on a closed
                                        channel, which panics in Go *)
| CtxDone                            (* [case <-ctx.Done()], lines 91 and 110 *)
| TimerFires.                        (* [case <-time.After(wait)], line 109 *)

(** What an observer of the goroutine sees. *)
Inductive action :=
| CallGet (t : string) (r : Request) (minIndex : N)  (* line 78 *)
| Sent (ch : chan) (u : UpdateEvent)                 (* line 90 *)
| Timer (wait : Z).                                  (* line 109 *)

Definition goto (s : session) (p : pc) : session :=
  {| index := index s; failures := failures s; point := p |}.

(** Line 88. *)
Definition event (w : watch) (res : payload) (meta : ResultMeta) (err : error)
  : UpdateEvent :=
  {| CorrelationID := w_correlationID w; Result := res; Meta := meta; Err := err |}.

(** Lines 102-106; [failures++] wraps around at the width of [uint]. *)
Definition count_failure (failures : N) (meta : ResultMeta) (err : error) : N :=
  if is_nil err && (0 <? Index meta) then 0
  else (failures + 1) mod uint_modulus arch.

(** Lines 115-117. *)
Definition floor_index (index : N) : N :=
  if index <? 1 then 1 else index.

(** Lines 99-117, entered with the cursor as the delivery block left it. *)
Definition after_delivery (index failures : N) (meta : ResultMeta) (err : error)
  : session * list action :=
  let failures := count_failure failures meta err in
  let wait := backOffWait failures in
  if (0 <? wait)%Z
  then ({| index := index; failures := failures; point := InSleep wait |},
        [Timer wait])
  else ({| index := floor_index index; failures := failures;
           point := AtCheckBefore |}, []).

Definition step (w : watch) (s : session) (i : input)
  : option (session * list action) :=
  match point s, i with
  | AtCheckBefore, CtxErr true => Some (goto s Returned, [])
  | AtCheckBefore, CtxErr false =>
      Some (goto s InGet, [CallGet (w_t w) (w_r w) (index s)])
  | InGet, GetReturns res meta err => Some (goto s (AtCheckAfter res meta err), [])
  | AtCheckAfter _ _ _, CtxErr true => Some (goto s Returned, [])
  | AtCheckAfter res meta err, CtxErr false =>
      if index s <? Index meta
      then Some (goto s (InSend res meta err), [])
      else Some (after_delivery (index s) (failures s) meta err)
  | InSend res meta err, SendCompletes =>
      let '(s', acts) := after_delivery (Index meta) (failures s) meta err in
      Some (s', Sent (w_ch w) (event w res meta err) :: acts)
  | InSend _ _ _, SendOnClosed => Some (goto s Panicked, [])
  | InSend _ _ _, CtxDone => Some (goto s Returned, [])
  | InSleep _, TimerFires =>
      Some ({| index := floor_index (index s); failures := failures s;
               point := AtCheckBefore |}, [])
  | InSleep _, CtxDone => Some (goto s Returned, [])
  | _, _ => None
  end.

(** A run feeds the goroutine one answer after the other; it is [None] when
    an answer does not belong to the control point the goroutine is at. *)
Fixpoint run (w : watch) (s : session) (ins : list input)
  : option (session * list action) :=
  match ins with
  | [] => Some (s, [])
  | i :: ins' =>
      match step w s i with
      | None => None
      | Some (s1, a1) =>
          match run w s1 ins' with
          | None => None
          | Some (s2, a2) => Some (s2, a1 ++ a2)
          end
      end
  end.

(** Line 66 and line 69: the cursor and the counter start at zero. *)
Definition start : session :=
  {| index := 0; failures := 0; point := AtCheckBefore |}.

(** ** Projections of a list of actions *)

Definition sent_events (acts : list action) : list UpdateEvent :=
  omap (fun a => match a with Sent _ u => Some u | _ => None end) acts.

Definition get_indices (acts : list action) : list N :=
  omap (fun a => match a with CallGet _ _ k => Some k | _ => None end) acts.

Definition timers (acts : list action) : list Z :=
  omap (fun a => match a with Timer d => Some d | _ => None end) acts.

(** ** A world that never cancels and always receives

    [iteration] takes the goroutine once round the loop for one fetch result:
    both context checks pass, a pending send completes and a pending timer
    fires. *)
Definition fetched : Type := payload * ResultMeta * error.

Definition settle (s : session) : list input :=
  match point s with
  | InSend _ _ _ => [SendCompletes]
  | InSleep _ => [TimerFires]
  | _ => []
  end.

Definition answers (f : fetched) : list input :=
  let '(res, meta, err) := f in
  [CtxErr false; GetReturns res meta err; CtxErr false].

Definition and_then (w : watch) (r : option (session * list action))
  (k : session -> list input) : option (session * list action) :=
  match r with
  | None => None
  | Some (s, a) =>
      match run w s (k s) with
      | None => None
      | Some (s', a') => Some (s', a ++ a')
      end
  end.

Definition iteration (w : watch) (s : session) (f : fetched)
  : option (session * list action) :=
  and_then w (and_then w (run w s (answers f)) settle) settle.

Fixpoint drive (w : watch) (s : session) (fs : list fetched)
  : option (session * list action) :=
  match fs with
  | [] => Some (s, [])
  | f :: fs' =>
      match iteration w s f with
      | None => None
      | Some (s1, a1) =>
          match drive w s1 fs' with
          | None => None
          | Some (s2, a2) => Some (s2, a1 ++ a2)
          end
      end
  end.

(** ** Notify *)

Record goroutine := { closure : watch; state : session }.

(** Lines 50-68 and 121.  [go func() {...}()] adds a goroutine to the ones
    the runtime schedules; the call itself returns the error. *)
Definition Notify (c : Cache) (ctx : Context) (t : string) (r : Request)
  (correlationID : string) (ch : chan) (running : list goroutine)
  : error * list goroutine :=
  match types c !! t with
  | None => (Some ("unknown type in cache: " +:+ t), running)
  | Some tEntry =>
      if negb (SupportsBlocking (Type_ tEntry))
      then (Some "watch requires the type to support blocking", running)
      else (None,
            running ++
            [{| closure := {| w_ctx := ctx; w_t := t; w_r := r;
                              w_correlationID := correlationID; w_ch := ch |};
                state := start |}])
  end.

(** ** Predicates and derived definitions used in the statements *)

(** A cursor the delivery block can be waiting on: the select of lines 89-93
    is only entered past the test of line 87. *)
Definition wf (s : session) : Prop :=
  match point s with
  | InSend _ meta _ => index s < Index meta
  | _ => True
  end.

Definition halted (s : session) : Prop :=
  point s = Returned \/ point s = Panicked.

(** At the head of the loop the cursor has been through lines 115-117. *)
Definition floored (s : session) : Prop :=
  point s = AtCheckBefore -> 1 <= index s.

(** The four places where the goroutine looks at the context, and the answer
    that means it was cancelled. *)
Definition observes_cancellation (s : session) (i : input) : bool :=
  match point s, i with
  | AtCheckBefore, CtxErr true => true       (* line 73 *)
  | AtCheckAfter _ _ _, CtxErr true => true  (* line 81 *)
  | InSend _ _ _, CtxDone => true            (* line 91 *)
  | InSleep _, CtxDone => true               (* line 110 *)
  | _, _ => false
  end.

(** The cursor and the fetched indices as [uint64] values. *)
Definition uint64_max : N := 2 ^ 64 - 1.

Definition input_fits (i : input) : Prop :=
  match i with
  | GetReturns _ meta _ => Index meta <= uint64_max
  | _ => True
  end.

Definition fits (s : session) : Prop :=
  index s <= uint64_max /\ failures s < uint_modulus arch /\
  match point s with
  | AtCheckAfter _ meta _ | InSend _ meta _ => Index meta <= uint64_max
  | _ => True
  end.

(** Delivered events are compared by their index. *)
Definition index_lt (u v : UpdateEvent) : Prop :=
  Index (Meta u) < Index (Meta v).

(** Lines 78-117 read top to bottom for one fetch result. *)
Definition loop_body (w : watch) (s : session) (f : fetched)
  : session * list action :=
  let '(res, meta, err) := f in
  let changed := index s <? Index meta in
  let cursor := if changed then Index meta else index s in
  let failures := count_failure (failures s) meta err in
  let wait := backOffWait failures in
  ({| index := floor_index cursor; failures := failures;
      point := AtCheckBefore |},
   CallGet (w_t w) (w_r w) (index s)
     :: (if changed then [Sent (w_ch w) (event w res meta err)] else [])
     ++ (if (0 <? wait)%Z then [Timer wait] else [])).

(** The parts of a fetch result, and the event line 88 builds from it. *)
Definition fetched_index (f : fetched) : N := Index f.1.2.
Definition fetched_err (f : fetched) : error := f.2.
Definition event_of (w : watch) (f : fetched) : UpdateEvent :=
  event w f.1.1 f.1.2 f.2.

(** The goroutine a successful [Notify] starts. *)
Definition spawned (ctx : Context) (t : string) (r : Request)
  (correlationID : string) (ch : chan) : goroutine :=
  {| closure := {| w_ctx := ctx; w_t := t; w_r := r;
                   w_correlationID := correlationID; w_ch := ch |};
     state := start |}.

(** Case analysis of one transition, as an inversion principle. *)
Inductive step_spec (w : watch) (s : session)
  : input -> session -> list action -> Prop :=
| StepCancelledBefore :
    point s = AtCheckBefore ->
    step_spec w s (CtxErr true) (goto s Returned) []
| StepCall :
    point s = AtCheckBefore ->
    step_spec w s (CtxErr false) (goto s InGet)
      [CallGet (w_t w) (w_r w) (index s)]
| StepGot res meta err :
    point s = InGet ->
    step_spec w s (GetReturns res meta err) (goto s (AtCheckAfter res meta err)) []
| StepCancelledAfter res meta err :
    point s = AtCheckAfter res meta err ->
    step_spec w s (CtxErr true) (goto s Returned) []
| StepChanged res meta err :
    point s = AtCheckAfter res meta err ->
    index s < Index meta ->
    step_spec w s (CtxErr false) (goto s (InSend res meta err)) []
| StepUnchanged res meta err :
    point s = AtCheckAfter res meta err ->
    Index meta <= index s ->
    step_spec w s (CtxErr false)
      (after_delivery (index s) (failures s) meta err).1
      (after_delivery (index s) (failures s) meta err).2
| StepSent res meta err :
    point s = InSend res meta err ->
    step_spec w s SendCompletes
      (after_delivery (Index meta) (failures s) meta err).1
      (Sent (w_ch w) (event w res meta err)
         :: (after_delivery (Index meta) (failures s) meta err).2)
| StepSendPanics res meta err :
    point s = InSend res meta err ->
    step_spec w s SendOnClosed (goto s Panicked) []
| StepSendCancelled res meta err :
    point s = InSend res meta err ->
    step_spec w s CtxDone (goto s Returned) []
| StepWoke d :
    point s = InSleep d ->
    step_spec w s TimerFires
      {| index := floor_index (index s); failures := failures s;
         point := AtCheckBefore |} []
| StepSleepCancelled d :
    point s = InSleep d ->
    step_spec w s CtxDone (goto s Returned) [].

(** ** Basic facts about the transitions *)

Lemma floor_index_ge1 k : 1 <= floor_index k.
Proof. unfold floor_index. destruct (N.ltb_spec k 1); lia. Qed.

Lemma floor_index_le k : k <= floor_index k.
Proof. unfold floor_index. destruct (N.ltb_spec k 1); lia. Qed.

Lemma floor_index_pos k : 1 <= k -> floor_index k = k.
Proof. unfold floor_index. destruct (N.ltb_spec k 1); lia. Qed.

Lemma count_failure_reset f meta err :
  err = None -> 0 < Index meta -> count_failure f meta err = 0.
Proof.
  intros -> Hpos. unfold count_failure. simpl.
  destruct (N.ltb_spec 0 (Index meta)); [reflexivity | lia].
Qed.

Lemma count_failure_incr f meta err :
  err <> None \/ Index meta = 0 ->
  count_failure f meta err = (f + 1) mod uint_modulus arch.
Proof.
  intros H. unfold count_failure.
  destruct err as [msg|]; simpl; [reflexivity|].
  destruct H as [H|H]; [congruence|]. rewrite H. reflexivity.
Qed.

Lemma uint_modulus_pos : 1 < uint_modulus arch.
Proof. destruct arch; simpl; lia. Qed.

Lemma count_failure_lt f meta err : count_failure f meta err < uint_modulus arch.
Proof.
  pose proof uint_modulus_pos.
  unfold count_failure. destruct (is_nil err && (0 <? Index meta)); [lia|].
  apply N.mod_lt. lia.
Qed.

(** The two ways out of lines 99-117. *)
Lemma after_delivery_cases k f meta err :
  let f' := count_failure f meta err in
  ((0 < backOffWait f')%Z /\
   after_delivery k f meta err =
     ({| index := k; failures := f'; point := InSleep (backOffWait f') |},
      [Timer (backOffWait f')])) \/
  ((backOffWait f' <= 0)%Z /\
   after_delivery k f meta err =
     ({| index := floor_index k; failures := f'; point := AtCheckBefore |}, [])).
Proof.
  intros f'. unfold after_delivery. fold f'.
  destruct (Z.ltb_spec 0 (backOffWait f')); [left | right]; split; auto.
Qed.

Lemma after_delivery_failures k f meta err :
  failures (after_delivery k f meta err).1 = count_failure f meta err.
Proof.
  destruct (after_delivery_cases k f meta err) as [[_ ->]|[_ ->]]; reflexivity.
Qed.

Lemma after_delivery_index k f meta err :
  index (after_delivery k f meta err).1 = k \/
  (index (after_delivery k f meta err).1 = floor_index k /\
   point (after_delivery k f meta err).1 = AtCheckBefore).
Proof.
  destruct (after_delivery_cases k f meta err) as [[_ ->]|[_ ->]]; simpl; auto.
Qed.

Lemma after_delivery_sent k f meta err :
  sent_events (after_delivery k f meta err).2 = [].
Proof.
  destruct (after_delivery_cases k f meta err) as [[_ ->]|[_ ->]]; reflexivity.
Qed.

Lemma after_delivery_gets k f meta err :
  get_indices (after_delivery k f meta err).2 = [].
Proof.
  destruct (after_delivery_cases k f meta err) as [[_ ->]|[_ ->]]; reflexivity.
Qed.

Lemma after_delivery_point k f meta err :
  point (after_delivery k f meta err).1 = AtCheckBefore \/
  exists d, point (after_delivery k f meta err).1 = InSleep d.
Proof.
  destruct (after_delivery_cases k f meta err) as [[_ ->]|[_ ->]]; simpl; eauto.
Qed.

Lemma step_inv w s i s' acts :
  step w s i = Some (s', acts) -> step_spec w s i s' acts.
Proof.
  unfold step. intros H.
  destruct (point s) eqn:Hp; destruct i as [[|]| | | | |]; try discriminate.
  - simplify_eq. by constructor.
  - simplify_eq. by constructor.
  - simplify_eq. by constructor.
  - simplify_eq. by econstructor.
  - destruct (N.ltb_spec (index s) (Index meta)).
    + simplify_eq. by constructor.
    + assert (E : after_delivery (index s) (failures s) meta err = (s', acts))
        by congruence.
      replace s' with (after_delivery (index s) (failures s) meta err).1
        by (rewrite E; reflexivity).
      replace acts with (after_delivery (index s) (failures s) meta err).2
        by (rewrite E; reflexivity).
      by eapply StepUnchanged.
  - destruct (after_delivery (Index meta) (failures s) meta err) as [s1 a1] eqn:E.
    simplify_eq.
    replace s' with (after_delivery (Index meta) (failures s) meta err).1
      by (rewrite E; reflexivity).
    replace a1 with (after_delivery (Index meta) (failures s) meta err).2
      by (rewrite E; reflexivity).
    by eapply StepSent.
  - simplify_eq. by econstructor.
  - simplify_eq. by econstructor.
  - simplify_eq. by econstructor.
  - simplify_eq. by econstructor.
Qed.

Lemma step_complete w s i s' acts :
  step_spec w s i s' acts -> step w s i = Some (s', acts).
Proof.
  intros H. unfold step.
  destruct H as [Hp|Hp|? ? ? Hp|? ? ? Hp|? ? ? Hp Hlt|? ? ? Hp Hle
                |? ? ? Hp|? ? ? Hp|? ? ? Hp|? Hp|? Hp]; rewrite Hp; try reflexivity.
  - destruct (N.ltb_spec (index s) (Index meta)); [reflexivity | lia].
  - destruct (N.ltb_spec (index s) (Index meta)); [lia |].
    by destruct (after_delivery _ _ _ _).
  - by destruct (after_delivery _ _ _ _).
Qed.

(** ** Runs *)

Lemma run_cons_inv w s i ins s' acts :
  run w s (i :: ins) = Some (s', acts) ->
  exists s1 a1 a2,
    step w s i = Some (s1, a1) /\ run w s1 ins = Some (s', a2) /\
    acts = a1 ++ a2.
Proof.
  simpl. destruct (step w s i) as [[s1 a1]|]; [|discriminate].
  destruct (run w s1 ins) as [[s2 a2]|] eqn:Hr; [|discriminate].
  intros [= <- <-]. by exists s1, a1, a2.
Qed.

Lemma run_app w s ins1 ins2 :
  run w s (ins1 ++ ins2) =
  match run w s ins1 with
  | None => None
  | Some (s1, a1) =>
      match run w s1 ins2 with
      | None => None
      | Some (s2, a2) => Some (s2, a1 ++ a2)
      end
  end.
Proof.
  revert s. induction ins1 as [|i ins1 IH]; intros s; simpl.
  - by destruct (run w s ins2) as [[? ?]|].
  - destruct (step w s i) as [[s1 a1]|]; [|reflexivity].
    rewrite IH. destruct (run w s1 ins1) as [[s2 a2]|]; [|reflexivity].
    destruct (run w s2 ins2) as [[s3 a3]|]; [|reflexivity].
    by rewrite app_assoc.
Qed.

Lemma step_halted w s i : halted s -> step w s i = None.
Proof. unfold step. by intros [-> | ->]. Qed.

Lemma run_halted w s ins s' acts :
  halted s -> run w s ins = Some (s', acts) -> ins = [] /\ s' = s /\ acts = [].
Proof.
  intros Hh. destruct ins as [|i ins]; simpl.
  - by intros [= <- <-].
  - by rewrite (step_halted w s i Hh).
Qed.

Lemma wf_start : wf start.
Proof. exact I. Qed.

Lemma fits_start : fits start.
Proof. pose proof uint_modulus_pos. repeat split; simpl; [by compute | lia]. Qed.

Lemma wf_after_delivery k f meta err : wf (after_delivery k f meta err).1.
Proof.
  unfold wf. by destruct (after_delivery_point k f meta err) as [-> | [d ->]].
Qed.

Lemma step_wf w s i s' acts : step w s i = Some (s', acts) -> wf s'.
Proof.
  intros H. apply step_inv in H.
  destruct H; try exact I; auto using wf_after_delivery.
Qed.

Lemma run_wf w s ins s' acts : wf s -> run w s ins = Some (s', acts) -> wf s'.
Proof.
  revert s acts. induction ins as [|i ins IH]; intros s acts Hwf H.
  - simpl in H. by simplify_eq.
  - apply run_cons_inv in H as (s1 & a1 & a2 & Hs & Hr & ->).
    eauto using step_wf.
Qed.

(** The model keeps the cursor within [uint64] and the counter within [uint]
    as long as the fetched indices are [uint64] values. *)
Lemma step_fits w s i s' acts :
  fits s -> input_fits i -> step w s i = Some (s', acts) -> fits s'.
Proof.
  intros (Hi & Hf & Hm) Hin H. apply step_inv in H.
  assert (Hfl : forall k, k <= uint64_max -> floor_index k <= uint64_max).
  { intros k Hk. unfold floor_index, uint64_max in *.
    destruct (N.ltb_spec k 1); lia. }
  assert (Had : forall k f m e, k <= uint64_max ->
            fits (after_delivery k f m e).1).
  { intros k f m e Hk. pose proof (count_failure_lt f m e).
    destruct (after_delivery_cases k f m e) as [[_ ->]|[_ ->]];
      repeat split; simpl; auto. }
  destruct H as [Hp|Hp|? ? ? Hp|? ? ? Hp|? ? ? Hp Hlt|? ? ? Hp Hle
                |? ? ? Hp|? ? ? Hp|? ? ? Hp|? Hp|? Hp];
    rewrite ?Hp in Hm; try (by repeat split); auto.
  repeat split; simpl; auto.
Qed.

(** Along a run whose fetched indices are [uint64] values the cursor
    stays a [uint64] value and the failure counter stays a [uint] value. *)
Lemma run_fits w s ins s' acts :
  fits s -> Forall input_fits ins -> run w s ins = Some (s', acts) -> fits s'.
Proof.
  revert s acts. induction ins as [|i ins IH]; intros s acts Hfit Hall H.
  - simpl in H. by simplify_eq.
  - apply Forall_cons in Hall as [Hi Hall].
    apply run_cons_inv in H as (s1 & a1 & a2 & Hs & Hr & ->).
    eauto using step_fits.
Qed.

(** One transition never lowers the cursor, and an event it hands over
    carries an index above the old cursor and at most the new one. *)
Lemma step_cursor w s i s' acts :
  wf s -> step w s i = Some (s', acts) ->
  index s <= index s' /\
  Forall (fun u => index s < Index (Meta u) <= index s') (sent_events acts).
Proof.
  intros Hwf H. apply step_inv in H.
  destruct H as [Hp|Hp|? ? ? Hp|? ? ? Hp|? ? ? Hp Hlt|? ? ? Hp Hle
                |? ? ? Hp|? ? ? Hp|? ? ? Hp|? Hp|? Hp];
    simpl; try (split; [lia | constructor]).
  - rewrite after_delivery_sent. split; [|constructor].
    pose proof (floor_index_le (index s)).
    destruct (after_delivery_index (index s) (failures s) meta err)
      as [-> | [-> _]]; lia.
  - unfold wf in Hwf. rewrite Hp in Hwf.
    unfold sent_events. simpl. fold sent_events. rewrite after_delivery_sent.
    pose proof (floor_index_le (Index meta)).
    assert (Index meta <= index (after_delivery (Index meta) (failures s) meta err).1)
      by (destruct (after_delivery_index (Index meta) (failures s) meta err)
            as [-> | [-> _]]; lia).
    split; [lia|]. repeat constructor; simpl; lia.
  - pose proof (floor_index_le (index s)). split; [lia | constructor].
Qed.

Lemma sent_events_app a1 a2 :
  sent_events (a1 ++ a2) = sent_events a1 ++ sent_events a2.
Proof. apply omap_app. Qed.

Lemma get_indices_app a1 a2 :
  get_indices (a1 ++ a2) = get_indices a1 ++ get_indices a2.
Proof. apply omap_app. Qed.

Lemma timers_app a1 a2 : timers (a1 ++ a2) = timers a1 ++ timers a2.
Proof. apply omap_app. Qed.

Lemma run_cursor w s ins s' acts :
  wf s -> run w s ins = Some (s', acts) ->
  index s <= index s' /\
  Forall (fun u => index s < Index (Meta u) <= index s') (sent_events acts) /\
  StronglySorted index_lt (sent_events acts).
Proof.
  revert s acts. induction ins as [|i ins IH]; intros s acts Hwf H.
  - simpl in H. simplify_eq. simpl. repeat split; [lia | constructor | constructor].
  - apply run_cons_inv in H as (s1 & a1 & a2 & Hs & Hr & ->).
    destruct (step_cursor _ _ _ _ _ Hwf Hs) as [Hle1 Hall1].
    destruct (IH _ _ (step_wf _ _ _ _ _ Hs) Hr) as (Hle2 & Hall2 & Hsorted2).
    rewrite sent_events_app. repeat split.
    + lia.
    + apply Forall_app. split.
      * eapply Forall_impl; [exact Hall1|]. simpl. intros; lia.
      * eapply Forall_impl; [exact Hall2|]. simpl. intros; lia.
    + apply StronglySorted_app_2; [| |exact Hsorted2].
      * intros u v Hu Hv. unfold index_lt.
        rewrite Forall_forall in Hall1, Hall2.
        specialize (Hall1 _ Hu). specialize (Hall2 _ Hv). lia.
      * apply step_inv in Hs. destruct Hs; simpl;
          rewrite ?after_delivery_sent; repeat constructor.
Qed.

(** Events leave the goroutine only through the send of line 90. *)
Lemma step_sent_inv w s i s' acts u :
  step w s i = Some (s', acts) -> u ∈ sent_events acts ->
  exists res meta err,
    point s = InSend res meta err /\ i = SendCompletes /\
    u = event w res meta err /\ sent_events acts = [u].
Proof.
  intros H Hu. apply step_inv in H.
  destruct H; simpl in Hu; rewrite ?after_delivery_sent in Hu;
    try (by apply elem_of_nil in Hu).
  apply list_elem_of_singleton in Hu as ->.
  exists res, meta, err. repeat split; auto.
  simpl. by rewrite after_delivery_sent.
Qed.

(** The select of lines 89-93 is entered only past the test of line 87. *)
Lemma step_enters_send w s i s' acts res meta err :
  step w s i = Some (s', acts) -> point s' = InSend res meta err ->
  point s = AtCheckAfter res meta err /\ i = CtxErr false /\
  index s < Index meta /\ index s' = index s.
Proof.
  intros H Hp. apply step_inv in H.
  destruct H as [Hq|Hq|? ? ? Hq|? ? ? Hq|r m e Hq Hlt|r m e Hq Hle
                |r m e Hq|? ? ? Hq|? ? ? Hq|? Hq|? Hq];
    simpl in Hp; try discriminate.
  - by simplify_eq.
  - by destruct (after_delivery_point (index s) (failures s) m e)
      as [E | [d E]]; rewrite E in Hp.
  - by destruct (after_delivery_point (Index m) (failures s) m e)
      as [E | [d E]]; rewrite E in Hp.
Qed.

(** ** Change detection and delivery *)

(** C1. In every iteration that reaches line 87 with the context alive, the
    goroutine builds an event and enters the sending select exactly when the
    cursor is strictly below the fetched [meta.Index]; the event handed over
    is [{correlationID, res, meta, err}] with the correlation ID of the
    registration; once the send has completed the cursor is [meta.Index],
    whatever [err] is.  When [meta.Index <= cursor] nothing is sent and lines
    85-97 leave the cursor alone (only the floor of lines 115-117 can still
    lift a cursor of 0 to 1).  No transition sends an event in any other way. *)
Theorem C1_change_detection_and_delivery
  (w : watch) (s : session) (res : payload) (meta : ResultMeta) (err : error) :
  point s = AtCheckAfter res meta err ->
  (index s < Index meta <->
   step w s (CtxErr false) = Some (goto s (InSend res meta err), [])) /\
  (exists s2 acts,
     step w (goto s (InSend res meta err)) SendCompletes = Some (s2, acts) /\
     sent_events acts =
       [{| CorrelationID := w_correlationID w; Result := res;
           Meta := meta; Err := err |}] /\
     (index s < Index meta -> index s2 = Index meta)) /\
  (Index meta <= index s ->
   exists s2 acts,
     step w s (CtxErr false) = Some (s2, acts) /\
     (s2, acts) = after_delivery (index s) (failures s) meta err /\
     sent_events acts = [] /\
     (forall r m e, point s2 <> InSend r m e) /\
     (index s2 = index s \/
      (index s = 0 /\ index s2 = 1 /\ point s2 = AtCheckBefore))) /\
  (forall s0 i s' acts u,
     step w s0 i = Some (s', acts) -> u ∈ sent_events acts ->
     exists r m e,
       point s0 = InSend r m e /\ i = SendCompletes /\
       u = event w r m e /\ sent_events acts = [u]) /\
  (forall s0 i s' acts r m e,
     step w s0 i = Some (s', acts) -> point s' = InSend r m e ->
     point s0 = AtCheckAfter r m e /\ i = CtxErr false /\ index s0 < Index m).
Proof.
  intros Hp. repeat split.
  - intros Hlt. apply step_complete. by constructor.
  - intros H.
    by destruct (step_enters_send _ _ _ _ _ res meta err H eq_refl)
      as (_ & _ & Hlt & _).
  - exists (after_delivery (Index meta) (failures s) meta err).1,
      (Sent (w_ch w) (event w res meta err)
         :: (after_delivery (Index meta) (failures s) meta err).2).
    repeat split.
    + apply step_complete.
      by apply (StepSent w (goto s (InSend res meta err)) res meta err).
    + simpl. by rewrite after_delivery_sent.
    + intros Hlt.
      destruct (after_delivery_index (Index meta) (failures s) meta err)
        as [-> | [-> _]]; [reflexivity|].
      apply floor_index_pos. lia.
  - intros Hle.
    exists (after_delivery (index s) (failures s) meta err).1,
      (after_delivery (index s) (failures s) meta err).2.
    repeat split.
    + apply step_complete. by eapply StepUnchanged.
    + by destruct (after_delivery _ _ _ _).
    + apply after_delivery_sent.
    + intros r m e E.
      by destruct (after_delivery_point (index s) (failures s) meta err)
        as [E' | [d E']]; rewrite E' in E.
    + destruct (after_delivery_index (index s) (failures s) meta err)
        as [-> | [-> Hq]]; [by left|].
      unfold floor_index. destruct (N.ltb_spec (index s) 1); [right | by left].
      repeat split; [lia | exact Hq].
  - intros s0 i s' acts u. apply step_sent_inv.
  - by eapply step_enters_send.
  - by eapply step_enters_send.
  - by eapply step_enters_send.
Qed.

(** ** One turn of the loop when nothing cancels *)

Lemma iteration_loop_body w s f :
  point s = AtCheckBefore -> iteration w s f = Some (loop_body w s f).
Proof.
  intros Hp. destruct f as [[res meta] err].
  unfold iteration, answers, loop_body. cbn [run].
  rewrite (step_complete _ _ _ _ _ (StepCall w s Hp)).
  cbn -[N.ltb Z.ltb count_failure floor_index].
  destruct (index s <? Index meta) eqn:Hlt;
    cbn -[N.ltb Z.ltb count_failure floor_index after_delivery];
    unfold after_delivery;
    destruct (0 <? backOffWait (count_failure (failures s) meta err))%Z;
    reflexivity.
Qed.

(** A turn of the loop is a run of the goroutine. *)
Lemma iteration_is_run w s f s' acts :
  iteration w s f = Some (s', acts) ->
  exists ins, run w s ins = Some (s', acts).
Proof.
  unfold iteration, and_then. intros H.
  destruct (run w s (answers f)) as [[s1 a1]|] eqn:E1; [|discriminate].
  destruct (run w s1 (settle s1)) as [[s2 a2]|] eqn:E2; [|discriminate].
  destruct (run w s2 (settle s2)) as [[s3 a3]|] eqn:E3; [|discriminate].
  simplify_eq.
  exists (answers f ++ settle s1 ++ settle s2).
  rewrite run_app, E1, run_app, E2, E3. by rewrite app_assoc.
Qed.

Lemma drive_is_run w s fs s' acts :
  drive w s fs = Some (s', acts) ->
  exists ins, run w s ins = Some (s', acts).
Proof.
  revert s acts. induction fs as [|f fs IH]; intros s acts H; simpl in H.
  - simplify_eq. by exists [].
  - destruct (iteration w s f) as [[s1 a1]|] eqn:E1; [|discriminate].
    destruct (drive w s1 fs) as [[s2 a2]|] eqn:E2; [|discriminate].
    simplify_eq.
    destruct (iteration_is_run _ _ _ _ _ E1) as [ins1 R1].
    destruct (IH _ _ E2) as [ins2 R2].
    exists (ins1 ++ ins2). by rewrite run_app, R1, R2.
Qed.

Lemma drive_cons w s f fs :
  point s = AtCheckBefore ->
  drive w s (f :: fs) =
  match drive w (loop_body w s f).1 fs with
  | None => None
  | Some (s2, a2) => Some (s2, (loop_body w s f).2 ++ a2)
  end.
Proof.
  intros Hp. simpl. rewrite (iteration_loop_body w s f Hp).
  by destruct (loop_body w s f).
Qed.

Lemma loop_body_point w s f : point (loop_body w s f).1 = AtCheckBefore.
Proof. by destruct f as [[? ?] ?]. Qed.

(** ** Ordering of the delivered events *)

Lemma loop_body_changed w s res meta :
  index s < Index meta ->
  (loop_body w s (res, meta, None : error)).1 =
    {| index := Index meta; failures := 0; point := AtCheckBefore |} /\
  sent_events (loop_body w s (res, meta, None : error)).2 = [event w res meta None].
Proof.
  intros Hlt. unfold loop_body.
  assert (Hb : (index s <? Index meta) = true) by by apply N.ltb_lt.
  rewrite Hb. cbn [fst snd].
  rewrite count_failure_reset by (reflexivity || lia).
  rewrite floor_index_pos by lia. split; [reflexivity|].
  by destruct (0 <? backOffWait 0)%Z.
Qed.

Lemma drive_increasing w s fs :
  point s = AtCheckBefore -> failures s = 0 ->
  StronglySorted N.lt (fetched_index <$> fs) ->
  Forall (fun f => index s < fetched_index f /\ fetched_err f = None) fs ->
  exists s' acts,
    drive w s fs = Some (s', acts) /\
    sent_events acts = event_of w <$> fs /\
    failures s' = 0 /\ point s' = AtCheckBefore.
Proof.
  revert s. induction fs as [|f fs IH]; intros s Hp Hf Hsorted Hall.
  - exists s, []. by repeat split.
  - rewrite fmap_cons in Hsorted.
    apply StronglySorted_cons in Hsorted as [Hhd Hsorted].
    apply Forall_cons in Hall as [[Hlt Herr] Hall].
    destruct f as [[res meta] err]. unfold fetched_err in Herr. simpl in Herr.
    subst err. unfold fetched_index in Hlt. simpl in Hlt.
    destruct (loop_body_changed w s res meta Hlt) as [Hs1 Ha1].
    destruct (IH (loop_body w s (res, meta, None : error)).1) as (s' & acts & Hd & He & Hf' & Hp').
    + apply loop_body_point.
    + by rewrite Hs1.
    + exact Hsorted.
    + rewrite Hs1. simpl. rewrite Forall_fmap in Hhd.
      rewrite Forall_forall in Hhd, Hall. apply Forall_forall.
      intros f Hin. split; [exact (Hhd f Hin) | exact (proj2 (Hall f Hin))].
    + exists s', ((loop_body w s (res, meta, None : error)).2 ++ acts).
      rewrite (drive_cons w s _ fs Hp), Hd. repeat split; auto.
      rewrite sent_events_app, Ha1, He. reflexivity.
Qed.

Lemma strictly_sorted_NoDup (l : list N) : StronglySorted N.lt l -> NoDup l.
Proof.
  induction 1 as [|k l Hs IH Hall]; constructor; [|exact IH].
  intros Hin. rewrite Forall_forall in Hall. specialize (Hall _ Hin). lia.
Qed.

(** C2 (amended). The indices of the events a session hands over, in the
    order of the sends, are strictly increasing, so no index is delivered
    twice.  When the fetches return strictly increasing indices that are all
    above zero, with no error, and nothing cancels, the consumer gets exactly
    one event per fetch, in that order, and the failure counter is zero after
    every turn of the loop.  (A first fetch at index 0 is left out: it is not
    delivered and counts as a failure.) *)
Theorem C2_delivery_strictly_increasing (w : watch) :
  (forall ins s' acts,
     run w start ins = Some (s', acts) ->
     StronglySorted N.lt ((fun u => Index (Meta u)) <$> sent_events acts) /\
     NoDup ((fun u => Index (Meta u)) <$> sent_events acts)) /\
  (forall fs,
     StronglySorted N.lt (fetched_index <$> fs) ->
     Forall (fun f => 0 < fetched_index f /\ fetched_err f = None) fs ->
     forall fs1 fs2, fs = fs1 ++ fs2 ->
     exists s1 a1,
       drive w start fs1 = Some (s1, a1) /\
       sent_events a1 = event_of w <$> fs1 /\
       failures s1 = 0).
Proof.
  split.
  - intros ins s' acts H.
    destruct (run_cursor _ _ _ _ _ wf_start H) as (_ & _ & Hs).
    assert (Hs' : StronglySorted N.lt
                    ((fun u => Index (Meta u)) <$> sent_events acts))
      by (eapply StronglySorted_fmap; [|exact Hs]; auto).
    split; [exact Hs' | by apply strictly_sorted_NoDup].
  - intros fs Hsorted Hall fs1 fs2 ->.
    rewrite fmap_app in Hsorted. apply StronglySorted_app in Hsorted as (_ & Hs1 & _).
    apply Forall_app in Hall as [Hall1 _].
    destruct (drive_increasing w start fs1 eq_refl eq_refl Hs1 Hall1)
      as (s1 & a1 & Hd & He & Hf & _).
    by exists s1, a1.
Qed.

(** ** Failure accounting and backoff *)

Lemma loop_body_index_zero w s res meta :
  Index meta = 0 -> failures s + 1 < uint_modulus arch ->
  let d := backOffWait (failures s + 1) in
  failures (loop_body w s (res, meta, None : error)).1 = failures s + 1 /\
  sent_events (loop_body w s (res, meta, None : error)).2 = [] /\
  timers (loop_body w s (res, meta, None : error)).2 =
    (if (0 <? d)%Z then [d] else []).
Proof.
  intros H0 Hsmall d. unfold loop_body.
  assert (Hb : (index s <? Index meta) = false) by (apply N.ltb_ge; lia).
  rewrite Hb. cbn [fst snd failures].
  rewrite count_failure_incr by by right.
  rewrite N.mod_small by exact Hsmall. fold d.
  repeat split; by destruct (0 <? d)%Z.
Qed.

Lemma drive_index_zero w s fs :
  point s = AtCheckBefore ->
  Forall (fun f => fetched_index f = 0 /\ fetched_err f = None) fs ->
  failures s + N.of_nat (length fs) < uint_modulus arch ->
  exists s' acts,
    drive w s fs = Some (s', acts) /\
    failures s' = failures s + N.of_nat (length fs) /\
    sent_events acts = [] /\
    timers acts =
      filter (fun d => (0 < d)%Z)
        ((fun j => backOffWait (failures s + N.of_nat j)) <$> seq 1 (length fs)).
Proof.
  revert s. induction fs as [|f fs IH]; intros s Hp Hall Hsmall.
  - exists s, []. simpl. repeat split; lia.
  - apply Forall_cons in Hall as [[H0 Herr] Hall].
    destruct f as [[res meta] err]. unfold fetched_err in Herr. simpl in Herr.
    subst err. unfold fetched_index in H0. simpl in H0, Hsmall.
    destruct (loop_body_index_zero w s res meta H0) as (Hf1 & He1 & Ht1); [lia|].
    destruct (IH (loop_body w s (res, meta, None : error)).1)
      as (s' & acts & Hd & Hf & He & Ht).
    + apply loop_body_point.
    + exact Hall.
    + rewrite Hf1. lia.
    + exists s', ((loop_body w s (res, meta, None : error)).2 ++ acts).
      rewrite (drive_cons w s _ fs Hp), Hd. repeat split.
      * rewrite Hf, Hf1. simpl. lia.
      * by rewrite sent_events_app, He1, He.
      * rewrite timers_app, Ht1, Ht, Hf1. cbn [length seq fmap list_fmap].
        rewrite filter_cons. replace (N.of_nat 1) with 1 by reflexivity.
        assert (Hext : (fun j => backOffWait (failures s + N.of_nat j))
                         <$> seq 2 (length fs)
                       = (fun j => backOffWait (failures s + 1 + N.of_nat j))
                         <$> seq 1 (length fs)).
        { rewrite <- (fmap_S_seq 1), <- list_fmap_compose.
          apply list_fmap_ext. intros _ j _. simpl. f_equal. lia. }
        rewrite Hext.
        destruct (Z.ltb_spec 0 (backOffWait (failures s + 1)));
          destruct (decide (0 < backOffWait (failures s + 1))%Z);
          (reflexivity || lia).
Qed.

(** C3. Every pass through lines 102-106 (after a completed send, or after a
    fetch that did not move the cursor) leaves [failures] at 0 exactly when
    [err == nil] and [meta.Index > 0], and otherwise at the old value plus
    one ([failures++] on a [uint]: plus one below the largest [uint], 0 after
    it); the backoff policy is consulted with the new count and a timer is
    armed when its answer is positive.  In particular index 0 without an
    error counts as a failure: after [n] such fetches in a row the counter
    has grown by [n], the policy was asked for [failures+1], ...,
    [failures+n] in turn, a sleep happened for every positive answer, and
    nothing was delivered. *)
Theorem C3_failure_accounting (w : watch) :
  (forall s i s' acts res meta err,
     (point s = AtCheckAfter res meta err /\ i = CtxErr false /\
      Index meta <= index s) \/
     (point s = InSend res meta err /\ i = SendCompletes) ->
     step w s i = Some (s', acts) ->
     (err = None /\ 0 < Index meta -> failures s' = 0) /\
     (~ (err = None /\ 0 < Index meta) ->
      failures s' = (failures s + 1) mod uint_modulus arch /\
      (failures s + 1 < uint_modulus arch -> failures s' = failures s + 1)) /\
     timers acts =
       (if (0 <? backOffWait (failures s'))%Z
        then [backOffWait (failures s')] else [])) /\
  (forall s fs,
     point s = AtCheckBefore ->
     Forall (fun f => fetched_index f = 0 /\ fetched_err f = None) fs ->
     failures s + N.of_nat (length fs) < uint_modulus arch ->
     exists s' acts,
       drive w s fs = Some (s', acts) /\
       failures s' = failures s + N.of_nat (length fs) /\
       sent_events acts = [] /\
       timers acts =
         filter (fun d => (0 < d)%Z)
           ((fun j => backOffWait (failures s + N.of_nat j))
              <$> seq 1 (length fs))).
Proof.
  split; [|intros s fs; apply drive_index_zero].
  intros s i s' acts res meta err Hcase H.
  assert (Hshape : exists k,
            s' = (after_delivery k (failures s) meta err).1 /\
            timers acts = timers (after_delivery k (failures s) meta err).2).
  { unfold step in H.
    destruct Hcase as [(Hp & -> & Hle) | (Hp & ->)]; rewrite Hp in H.
    - destruct (N.ltb_spec (index s) (Index meta)); [lia|].
      exists (index s).
      assert (E : after_delivery (index s) (failures s) meta err = (s', acts))
        by congruence.
      by rewrite E.
    - exists (Index meta).
      destruct (after_delivery (Index meta) (failures s) meta err) as [s1 a1].
      by simplify_eq. }
  destruct Hshape as (k & -> & ->).
  rewrite after_delivery_failures.
  repeat split.
  - intros [-> Hpos]. by apply count_failure_reset.
  - apply count_failure_incr. destruct err; [by left|].
    right. destruct (N.eq_dec (Index meta) 0); [done|].
    exfalso. apply H0. split; [done | lia].
  - intros Hsmall. rewrite count_failure_incr.
    + by apply N.mod_small.
    + destruct err; [by left|].
      right. destruct (N.eq_dec (Index meta) 0); [done|].
      exfalso. apply H0. split; [done | lia].
  - destruct (after_delivery_cases k (failures s) meta err)
      as [[Hw ->]|[Hw ->]]; simpl.
    + destruct (Z.ltb_spec 0 (backOffWait (count_failure (failures s) meta err)));
        [reflexivity | lia].
    + destruct (Z.ltb_spec 0 (backOffWait (count_failure (failures s) meta err)));
        [lia | reflexivity].
Qed.

(** ** The cursor floor *)

(** A transition that comes back to the head of the loop went through the
    floor, applied to the cursor the delivery block left. *)
Lemma step_to_head w s i s' acts :
  step w s i = Some (s', acts) -> point s <> AtCheckBefore ->
  point s' = AtCheckBefore ->
  exists k, index s' = floor_index k /\
    (k = index s \/ exists r m e, point s = InSend r m e /\ k = Index m).
Proof.
  intros H Hne Hq. apply step_inv in H.
  destruct H as [Hp|Hp|? ? ? Hp|? ? ? Hp|? ? ? Hp Hlt|r m e Hp Hle
                |r m e Hp|? ? ? Hp|? ? ? Hp|d Hp|d Hp];
    simpl in Hq; try discriminate; try congruence.
  - exists (index s). split; [|by left].
    destruct (after_delivery_cases (index s) (failures s) m e)
      as [[_ E]|[_ E]]; rewrite E in Hq |- *; [discriminate | reflexivity].
  - exists (Index m). split; [|right; by exists r, m, e].
    destruct (after_delivery_cases (Index m) (failures s) m e)
      as [[_ E]|[_ E]]; rewrite E in Hq |- *; [discriminate | reflexivity].
  - exists (index s). split; [reflexivity | by left].
Qed.

(** Only the transition that leaves the head of the loop calls the fetch,
    and it passes the cursor. *)
Lemma step_gets w s i s' acts :
  step w s i = Some (s', acts) ->
  get_indices acts = [] \/
  (point s = AtCheckBefore /\ point s' = InGet /\ get_indices acts = [index s]).
Proof.
  intros H. apply step_inv in H.
  destruct H; simpl; rewrite ?after_delivery_gets; auto.
Qed.

Lemma step_floored w s i s' acts :
  floored s -> step w s i = Some (s', acts) ->
  floored s' /\ Forall (fun k => 1 <= k) (get_indices acts).
Proof.
  intros Hfl H. split.
  - intros Hq. destruct (point s) eqn:Hp.
    + apply step_inv in H. inversion H; subst; simpl in Hq; congruence.
    + destruct (step_to_head _ _ _ _ _ H) as (k & -> & _);
        [congruence | exact Hq | apply floor_index_ge1].
    + destruct (step_to_head _ _ _ _ _ H) as (k & -> & _);
        [congruence | exact Hq | apply floor_index_ge1].
    + destruct (step_to_head _ _ _ _ _ H) as (k & -> & _);
        [congruence | exact Hq | apply floor_index_ge1].
    + destruct (step_to_head _ _ _ _ _ H) as (k & -> & _);
        [congruence | exact Hq | apply floor_index_ge1].
    + by rewrite step_halted in H by by left.
    + by rewrite step_halted in H by by right.
  - destruct (step_gets _ _ _ _ _ H) as [-> | (Hp & _ & ->)]; [constructor|].
    repeat constructor. by apply Hfl.
Qed.

Lemma run_floored w s ins s' acts :
  floored s -> run w s ins = Some (s', acts) ->
  Forall (fun k => 1 <= k) (get_indices acts).
Proof.
  revert s acts. induction ins as [|i ins IH]; intros s acts Hfl H.
  - simpl in H. simplify_eq. constructor.
  - apply run_cons_inv in H as (s1 & a1 & a2 & Hs & Hr & ->).
    destruct (step_floored _ _ _ _ _ Hfl Hs) as [Hfl1 Hall1].
    rewrite get_indices_app. apply Forall_app. eauto.
Qed.

(** C4. The cursor starts at 0 and the first fetch of a session is called
    with [minIndex] 0; every transition back to the head of the loop leaves
    the cursor at the floor (1 if below 1, unchanged otherwise) of what it
    was after the delivery block, so at least 1; hence in every run of a
    session each fetch after the first is called with [minIndex >= 1]. *)
Theorem C4_cursor_floor (w : watch) (ins : list input) (s' : session)
  (acts : list action) :
  run w start ins = Some (s', acts) ->
  index start = 0 /\
  step w start (CtxErr false) =
    Some (goto start InGet, [CallGet (w_t w) (w_r w) 0]) /\
  match get_indices acts with
  | [] => True
  | k :: ks => k = 0 /\ Forall (fun k' => 1 <= k') ks
  end /\
  (forall s i s1 a,
     step w s i = Some (s1, a) -> point s <> AtCheckBefore ->
     point s1 = AtCheckBefore ->
     1 <= index s1 /\
     exists k, index s1 = (if k <? 1 then 1 else k) /\
       (k = index s \/ exists r m e, point s = InSend r m e /\ k = Index m)).
Proof.
  intros H. split; [reflexivity|]. split; [reflexivity|]. split.
  - destruct ins as [|i ins]; [simpl in H; by simplify_eq|].
    apply run_cons_inv in H as (s1 & a1 & a2 & Hs & Hr & ->).
    destruct (step_gets _ _ _ _ _ Hs) as [E | (_ & Hp1 & E)];
      rewrite get_indices_app, E; simpl.
    + apply step_inv in Hs. inversion Hs; subst; try discriminate.
      apply run_halted in Hr as (_ & _ & ->); [exact I | by left].
    + split; [reflexivity|].
      eapply run_floored; [|exact Hr]. intros Hq. congruence.
  - intros s i s1 a Hs Hne Hq.
    destruct (step_to_head _ _ _ _ _ Hs Hne Hq) as (k & Hk & Hor).
    split; [rewrite Hk; apply floor_index_ge1|].
    exists k. split; [exact Hk | exact Hor].
Qed.

(** ** Monotonicity of the cursor *)

Lemma step_unchanged w s res meta err s' acts :
  point s = AtCheckAfter res meta err -> Index meta <= index s ->
  step w s (CtxErr false) = Some (s', acts) ->
  sent_events acts = [] /\
  (index s' = index s \/ (index s = 0 /\ index s' = 1)).
Proof.
  intros Hp Hle H. unfold step in H. rewrite Hp in H.
  destruct (N.ltb_spec (index s) (Index meta)); [lia|].
  assert (E : after_delivery (index s) (failures s) meta err = (s', acts))
    by congruence.
  pose proof (after_delivery_sent (index s) (failures s) meta err) as Hs.
  pose proof (after_delivery_index (index s) (failures s) meta err) as Hi.
  rewrite E in Hs, Hi. simpl in Hs, Hi. split; [exact Hs|].
  destruct Hi as [-> | [-> _]]; [by left|].
  unfold floor_index. destruct (N.ltb_spec (index s) 1); [right; lia | by left].
Qed.

(** C9. Along every run of a session the cursor never decreases, whatever the
    fetches return; a fetched index at or below the cursor sends nothing and
    leaves the cursor where it was (or lifts a cursor of 0 to the floor 1). *)
Theorem C9_cursor_monotone (w : watch) (ins1 ins2 : list input)
  (s1 s2 : session) (a1 a2 : list action) :
  run w start ins1 = Some (s1, a1) ->
  run w s1 ins2 = Some (s2, a2) ->
  index s1 <= index s2 /\
  (forall res meta err s3 a3,
     point s1 = AtCheckAfter res meta err -> Index meta <= index s1 ->
     step w s1 (CtxErr false) = Some (s3, a3) ->
     sent_events a3 = [] /\ index s1 <= index s3 /\
     (index s3 = index s1 \/ (index s1 = 0 /\ index s3 = 1))).
Proof.
  intros H1 H2.
  pose proof (run_wf _ _ _ _ _ wf_start H1) as Hwf.
  split; [by destruct (run_cursor _ _ _ _ _ Hwf H2)|].
  intros res meta err s3 a3 Hp Hle Hs.
  destruct (step_unchanged _ _ _ _ _ _ _ Hp Hle Hs) as [Hsent Hidx].
  repeat split; [exact Hsent | | exact Hidx].
  destruct Hidx as [-> | (-> & -> )]; lia.
Qed.

(** ** Index zero *)

(** C10. No event a session hands over carries index 0, whatever the error
    and whichever turn of the loop: a fetch that comes back with
    [meta.Index = 0] skips the send, so a first (possibly cached) value
    reported at index 0 never reaches the consumer. *)
Theorem C10_index_zero_never_delivered (w : watch) (ins : list input)
  (s' : session) (acts : list action) :
  run w start ins = Some (s', acts) ->
  Forall (fun u => Index (Meta u) <> 0) (sent_events acts) /\
  (forall res meta err s1 a1,
     point s' = AtCheckAfter res meta err -> Index meta = 0 ->
     step w s' (CtxErr false) = Some (s1, a1) ->
     sent_events a1 = [] /\ forall r m e, point s1 <> InSend r m e) /\
  (forall res meta err,
     Index meta = 0 ->
     exists s1 a1,
       iteration w start (res, meta, err) = Some (s1, a1) /\
       sent_events a1 = []).
Proof.
  intros H. split; [|split].
  - destruct (run_cursor _ _ _ _ _ wf_start H) as (_ & Hall & _).
    eapply Forall_impl; [exact Hall|]. intros u [Hu _].
    change (index start) with 0 in Hu. lia.
  - intros res meta err s1 a1 Hp H0 Hs.
    assert (Hle : Index meta <= index s') by lia.
    split; [by destruct (step_unchanged _ _ _ _ _ _ _ Hp Hle Hs)|].
    intros r m e Hq.
    destruct (step_enters_send _ _ _ _ _ _ _ _ Hs Hq) as (Hp' & _ & Hlt & _).
    rewrite Hp in Hp'. simplify_eq. lia.
  - intros res meta err H0.
    exists (loop_body w start (res, meta, err)).1,
      (loop_body w start (res, meta, err)).2.
    split.
    + rewrite (iteration_loop_body w start _ eq_refl).
      by destruct (loop_body w start (res, meta, err)).
    + unfold loop_body. simpl. rewrite H0. simpl.
      by destruct (0 <? backOffWait (count_failure 0 meta err))%Z.
Qed.

(** ** Cancellation *)

(** C5. When the goroutine sees the cancellation (before the fetch, after
    the fetch, in the sending select or in the backoff select) it returns on
    the spot: that transition performs no action, cursor and counter are
    left as they were, the goroutine has returned (it has not panicked), and
    no further transition exists, so no fetch and no send can follow. *)
Theorem C5_cancellation_is_silent (w : watch) (s : session) (i : input) :
  observes_cancellation s i = true ->
  step w s i = Some (goto s Returned, []) /\
  point (goto s Returned) = Returned /\
  (forall j, step w (goto s Returned) j = None) /\
  (forall ins s' acts,
     run w s (i :: ins) = Some (s', acts) ->
     ins = [] /\ acts = [] /\ s' = goto s Returned).
Proof.
  intros Hobs.
  assert (Hstep : step w s i = Some (goto s Returned, [])).
  { unfold observes_cancellation in Hobs. unfold step.
    destruct (point s); destruct i as [[|]| | | | |]; try discriminate;
      reflexivity. }
  assert (Hh : halted (goto s Returned)) by by left.
  repeat split; auto using step_halted.
  - apply run_cons_inv in H as (s1 & a1 & a2 & Hs & Hr & ->).
    rewrite Hstep in Hs. simplify_eq.
    by destruct (run_halted _ _ _ _ _ Hh Hr).
  - apply run_cons_inv in H as (s1 & a1 & a2 & Hs & Hr & ->).
    rewrite Hstep in Hs. simplify_eq.
    by destruct (run_halted _ _ _ _ _ Hh Hr) as (_ & _ & ->).
  - apply run_cons_inv in H as (s1 & a1 & a2 & Hs & Hr & ->).
    rewrite Hstep in Hs. simplify_eq.
    by destruct (run_halted _ _ _ _ _ Hh Hr) as (_ & -> & _).
Qed.

(** ** The sending select *)

(** While the goroutine is in the select of lines 89-93, a run goes on only
    through the completed send. *)
Lemma run_from_send w s res meta err ins s' acts :
  point s = InSend res meta err ->
  run w s ins = Some (s', acts) ->
  (exists ins' a',
     ins = SendCompletes :: ins' /\
     acts = Sent (w_ch w) (event w res meta err) :: a' /\
     run w (after_delivery (Index meta) (failures s) meta err).1 ins'
       = Some (s', drop (length (after_delivery (Index meta) (failures s) meta err).2) a') /\
     take (length (after_delivery (Index meta) (failures s) meta err).2) a'
       = (after_delivery (Index meta) (failures s) meta err).2) \/
  (acts = [] /\ index s' = index s /\ failures s' = failures s /\
   (ins = [] \/ halted s')).
Proof.
  intros Hp H. destruct ins as [|i ins].
  - simpl in H. simplify_eq. right. repeat split; auto.
  - apply run_cons_inv in H as (s1 & a1 & a2 & Hs & Hr & ->).
    unfold step in Hs. rewrite Hp in Hs.
    destruct i as [[|]| | | | |]; try discriminate.
    + left.
      destruct (after_delivery (Index meta) (failures s) meta err)
        as [s0 a0] eqn:E.
      simplify_eq. exists ins, (a0 ++ a2). simpl.
      repeat split.
      * by rewrite drop_app_length.
      * by rewrite take_app_length.
    + right. simplify_eq.
      assert (Hh : halted (goto s Panicked)) by by right.
      destruct (run_halted _ _ _ _ _ Hh Hr) as (_ & -> & ->).
      repeat split; auto.
    + right. simplify_eq.
      assert (Hh : halted (goto s Returned)) by by left.
      destruct (run_halted _ _ _ _ _ Hh Hr) as (_ & -> & ->).
      repeat split; auto.
Qed.

(** X8. In the select of lines 89-93, on a channel that has not
    been closed, either the send completes (the event is handed over, and only then is
    the cursor advanced and the loop continued) or the goroutine sees the
    cancellation and returns.  There is no timer case and no other way out:
    any run that gets past the select starts with the completed send, whose
    event is the first action of the run, before any later fetch; and as
    long as the event has not been received the goroutine calls no fetch,
    sends nothing and keeps its cursor. *)
Theorem open_channel_send_completes_or_cancelled (w : watch) (s : session)
  (res : payload) (meta : ResultMeta) (err : error) :
  point s = InSend res meta err ->
  (forall i s' acts,
     step w s i = Some (s', acts) -> i <> SendOnClosed ->
     (i = SendCompletes /\
      exists a', acts = Sent (w_ch w) (event w res meta err) :: a' /\
        (s', a') = after_delivery (Index meta) (failures s) meta err /\
        get_indices acts = []) \/
     (i = CtxDone /\ s' = goto s Returned /\ acts = [])) /\
  step w s TimerFires = None /\
  (forall b, step w s (CtxErr b) = None) /\
  (forall r m e, step w s (GetReturns r m e) = None) /\
  (forall ins s' acts,
     run w s ins = Some (s', acts) ->
     (get_indices acts <> [] \/ index s' <> index s \/
      point s' = AtCheckBefore) ->
     exists ins' a',
       ins = SendCompletes :: ins' /\
       acts = Sent (w_ch w) (event w res meta err) :: a') /\
  (forall ins s' acts,
     run w s ins = Some (s', acts) -> SendCompletes ∉ ins ->
     get_indices acts = [] /\ sent_events acts = [] /\ index s' = index s).
Proof.
  intros Hp. repeat split.
  - intros i s' acts H Hopen. unfold step in H. rewrite Hp in H.
    destruct i as [[|]| | | | |]; try discriminate; try congruence.
    + left. split; [reflexivity|].
      destruct (after_delivery (Index meta) (failures s) meta err)
        as [s1 a1] eqn:E.
      simplify_eq. exists a1. repeat split. simpl.
      pose proof (after_delivery_gets (Index meta) (failures s) meta err) as G.
      by rewrite E in G.
    + right. by simplify_eq.
  - unfold step. by rewrite Hp.
  - intros b. unfold step. rewrite Hp. by destruct b.
  - intros r m e. unfold step. by rewrite Hp.
  - intros ins s' acts H Hpast.
    destruct (run_from_send _ _ _ _ _ _ _ _ Hp H)
      as [(ins' & a' & -> & -> & _) | (-> & Hi & _ & Hor)].
    + by exists ins', a'.
    + exfalso. destruct Hpast as [Hg | [Hi' | Hq]]; [by apply Hg | by apply Hi' |].
      destruct Hor as [-> | [Hh | Hh]].
      * simpl in H. simplify_eq. congruence.
      * congruence.
      * congruence.
  - destruct (run_from_send _ _ _ _ _ _ _ _ Hp H)
      as [(ins' & a' & -> & -> & _) | (-> & Hi & _ & Hor)]; [|reflexivity].
    exfalso. apply H0. by left.
  - destruct (run_from_send _ _ _ _ _ _ _ _ Hp H)
      as [(ins' & a' & -> & -> & _) | (-> & Hi & _ & Hor)]; [|reflexivity].
    exfalso. apply H0. by left.
  - destruct (run_from_send _ _ _ _ _ _ _ _ Hp H)
      as [(ins' & a' & -> & -> & _) | (-> & Hi & _ & Hor)]; [|exact Hi].
    exfalso. apply H0. by left.
Qed.

(** ** A closed channel *)

(** What the goroutine does when the send of line 90 is chosen on a channel
    the consumer has closed: it does not return, it panics; and nothing else
    in the loop ever looks at whether the channel is closed. *)
Lemma send_on_closed_panics w s res meta err :
  point s = InSend res meta err ->
  step w s SendOnClosed = Some (goto s Panicked, []) /\
  point (goto s Panicked) <> Returned.
Proof. intros Hp. unfold step. rewrite Hp. by split. Qed.

(** ** Registration *)


(** ** Further properties of the loop *)

(** What the closure of one registration fixes in every action. *)
Definition addressed (w : watch) (a : action) : Prop :=
  match a with
  | CallGet t r _ => t = w_t w /\ r = w_r w
  | Sent ch u => ch = w_ch w /\ CorrelationID u = w_correlationID w
  | Timer _ => True
  end.

(** The fetch results the world handed to the goroutine, in order. *)
Definition returned (ins : list input) : list fetched :=
  omap (fun i => match i with
                 | GetReturns res meta err => Some (res, meta, err)
                 | _ => None
                 end) ins.

(** The fetch result the goroutine is holding between line 78 and the end of
    the delivery block. *)
Definition pending (s : session) : list fetched :=
  match point s with
  | AtCheckAfter res meta err | InSend res meta err => [(res, meta, err)]
  | _ => []
  end.

(** An answer that ends the goroutine: a cancellation it observes, or the
    send on a closed channel. *)
Definition ends (i : input) : Prop :=
  i = CtxErr true \/ i = CtxDone \/ i = SendOnClosed.

(** X1. Every fetch is for the type and request given to [Notify], every event
    goes to the channel given to [Notify] and carries its correlation ID
    (lines 78, 88 and 90). *)
Theorem run_addressed (w : watch) (s : session) (ins : list input)
  (s' : session) (acts : list action) :
  run w s ins = Some (s', acts) -> Forall (addressed w) acts.
Proof.
  revert s acts. induction ins as [|i ins IH]; intros s acts H.
  - simpl in H. simplify_eq. constructor.
  - apply run_cons_inv in H as (s1 & a1 & a2 & Hs & Hr & ->).
    apply Forall_app. split; [|by eapply IH].
    apply step_inv in Hs.
    destruct Hs as [Hp|Hp|? ? ? Hp|? ? ? Hp|? ? ? Hp Hlt|? m e Hp Hle
                   |? m e Hp|? ? ? Hp|? ? ? Hp|? Hp|? Hp];
      try (by repeat constructor).
    + by destruct (after_delivery_cases (index s) (failures s) m e)
        as [[_ ->]|[_ ->]]; repeat constructor.
    + constructor; [by split|].
      by destruct (after_delivery_cases (Index m) (failures s) m e)
        as [[_ ->]|[_ ->]]; repeat constructor.
Qed.

(** X2. The goroutine returns only where it observes a cancellation, and panics
    only on the send on a closed channel; the loop has no other way out
    (lines 71-118 have no [break] and no other [return]).  So a run in which
    no such answer occurs leaves the goroutine running. *)
Theorem run_ends_only_on_cancel (w : watch) (s : session) (ins : list input)
  (s' : session) (acts : list action) :
  run w s ins = Some (s', acts) ->
  ~ halted s ->
  Forall (fun i => ~ ends i) ins ->
  ~ halted s'.
Proof.
  revert s acts. induction ins as [|i ins IH]; intros s acts H Hrun Hall.
  - simpl in H. by simplify_eq.
  - apply Forall_cons in Hall as [Hi Hall].
    apply run_cons_inv in H as (s1 & a1 & a2 & Hs & Hr & ->).
    eapply IH; [exact Hr| |exact Hall].
    apply step_inv in Hs. unfold halted, ends in *.
    destruct Hs as [Hp|Hp|? ? ? Hp|? ? ? Hp|? ? ? Hp Hlt|? m e Hp Hle
                   |? m e Hp|? ? ? Hp|? ? ? Hp|? Hp|? Hp];
      simpl; try (intros [?|?]; discriminate); try (exfalso; apply Hi; auto; fail).
    + by destruct (after_delivery_point (index s) (failures s) m e)
        as [-> | [d ->]]; intros [?|?].
    + by destruct (after_delivery_point (Index m) (failures s) m e)
        as [-> | [d ->]]; intros [?|?].
Qed.

(** The goroutine never arms a timer for a wait that is not positive, and
    every wait is what [backOffWait] answered for a value of the failure
    counter (line 107). *)
Theorem run_timers_positive (w : watch) (s : session) (ins : list input)
  (s' : session) (acts : list action) :
  run w s ins = Some (s', acts) ->
  Forall (fun d => (0 < d)%Z /\
                   exists f, f < uint_modulus arch /\ d = backOffWait f)
    (timers acts).
Proof.
  revert s acts. induction ins as [|i ins IH]; intros s acts H.
  - simpl in H. simplify_eq. constructor.
  - apply run_cons_inv in H as (s1 & a1 & a2 & Hs & Hr & ->).
    rewrite timers_app. apply Forall_app. split; [|by eapply IH].
    assert (Had : forall k f m e,
              Forall (fun d => (0 < d)%Z /\
                        exists f, f < uint_modulus arch /\ d = backOffWait f)
                (timers (after_delivery k f m e).2)).
    { intros k f m e.
      destruct (after_delivery_cases k f m e) as [[Hpos ->]|[_ ->]];
        [|constructor].
      repeat constructor; [exact Hpos|].
      exists (count_failure f m e). split; [apply count_failure_lt | reflexivity]. }
    apply step_inv in Hs. destruct Hs; simpl; auto; try constructor.
Qed.

(** X3. The [minIndex] values of the fetches of a run never go down: a blocking
    query never asks for less than an earlier one did. *)
Theorem run_min_index_nondecreasing (w : watch) (s : session)
  (ins : list input) (s' : session) (acts : list action) :
  wf s ->
  run w s ins = Some (s', acts) ->
  Forall (fun k => index s <= k <= index s') (get_indices acts) /\
  StronglySorted N.le (get_indices acts).
Proof.
  revert s acts. induction ins as [|i ins IH]; intros s acts Hwf H.
  - simpl in H. simplify_eq. split; constructor.
  - apply run_cons_inv in H as (s1 & a1 & a2 & Hs & Hr & ->).
    destruct (step_cursor _ _ _ _ _ Hwf Hs) as [Hle1 _].
    destruct (run_cursor _ _ _ _ _ (step_wf _ _ _ _ _ Hs) Hr) as (Hle2 & _ & _).
    destruct (IH _ _ (step_wf _ _ _ _ _ Hs) Hr) as (Hall2 & Hsorted2).
    assert (Hall1 : Forall (fun k => index s <= k <= index s1) (get_indices a1)).
    { destruct (step_gets _ _ _ _ _ Hs) as [-> | (_ & _ & ->)]; [constructor|].
      repeat constructor; lia. }
    rewrite get_indices_app. split.
    + apply Forall_app. split.
      * eapply Forall_impl; [exact Hall1|]. simpl. intros; lia.
      * eapply Forall_impl; [exact Hall2|]. simpl. intros; lia.
    + apply StronglySorted_app_2; [| |exact Hsorted2].
      * intros k1 k2 H1 H2. rewrite Forall_forall in Hall1, Hall2.
        specialize (Hall1 _ H1). specialize (Hall2 _ H2). lia.
      * destruct (step_gets _ _ _ _ _ Hs) as [-> | (_ & _ & ->)];
          repeat constructor.
Qed.

Lemma floor_index_idem k : floor_index (floor_index k) = floor_index k.
Proof. apply floor_index_pos, floor_index_ge1. Qed.

(** What one transition does to the cursor, by whether it handed over an
    event. *)
Lemma step_cursor_cases w s i s' acts :
  wf s -> step w s i = Some (s', acts) ->
  (sent_events acts = [] /\
   (index s' = index s \/ index s' = floor_index (index s))) \/
  (exists u, sent_events acts = [u] /\ index s' = Index (Meta u) /\
             1 <= index s').
Proof.
  intros Hwf H. apply step_inv in H.
  destruct H as [Hp|Hp|? ? ? Hp|? ? ? Hp|? ? ? Hp Hlt|? m e Hp Hle
                |r m e Hp|? ? ? Hp|? ? ? Hp|? Hp|? Hp];
    try (left; split; [reflexivity | simpl; auto]; fail).
  - left. split; [apply after_delivery_sent|].
    destruct (after_delivery_index (index s) (failures s) m e)
      as [-> | [-> _]]; auto.
  - right. exists (event w r m e). unfold wf in Hwf. rewrite Hp in Hwf.
    assert (Hi : index (after_delivery (Index m) (failures s) m e).1 = Index m).
    { destruct (after_delivery_index (Index m) (failures s) m e)
        as [-> | [-> _]]; [reflexivity|]. apply floor_index_pos. lia. }
    repeat split.
    + simpl. by rewrite after_delivery_sent.
    + exact Hi.
    + rewrite Hi. lia.
Qed.

Lemma run_cursor_last w s ins s' acts :
  wf s -> run w s ins = Some (s', acts) ->
  match last (sent_events acts) with
  | Some u => index s' = Index (Meta u)
  | None => index s' = index s \/ index s' = floor_index (index s)
  end.
Proof.
  revert s acts. induction ins as [|i ins IH]; intros s acts Hwf H.
  - simpl in H. simplify_eq. simpl. by left.
  - apply run_cons_inv in H as (s1 & a1 & a2 & Hs & Hr & ->).
    specialize (IH _ _ (step_wf _ _ _ _ _ Hs) Hr).
    rewrite sent_events_app, last_app.
    destruct (last (sent_events a2)) as [u2|]; [exact IH|].
    destruct (step_cursor_cases _ _ _ _ _ Hwf Hs)
      as [(-> & Hi) | (u & -> & Hi & Hge)]; simpl.
    + destruct IH as [-> | ->]; destruct Hi as [-> | ->];
        rewrite ?floor_index_idem; auto.
    + destruct IH as [-> | ->]; [exact Hi|].
      by rewrite floor_index_pos.
Qed.

(** X4. Once an event has been delivered the cursor is the index of the last
    delivered event, at every later point of the run; before the first
    delivery it is 0 or 1.  So each fetch asks for what is newer than the
    last thing the consumer was given (lines 87-97 and 115-117). *)
Theorem cursor_follows_delivery (w : watch) (ins : list input)
  (s' : session) (acts : list action) :
  run w start ins = Some (s', acts) ->
  match last (sent_events acts) with
  | Some u => index s' = Index (Meta u)
  | None => index s' <= 1
  end.
Proof.
  intros H. pose proof (run_cursor_last _ _ _ _ _ wf_start H) as Hl.
  destruct (last (sent_events acts)); [exact Hl|].
  change (index start) with 0 in Hl. change (floor_index 0) with 1 in Hl.
  destruct Hl as [-> | ->]; lia.
Qed.

Lemma pending_after_delivery k f m e : pending (after_delivery k f m e).1 = [].
Proof.
  unfold pending.
  by destruct (after_delivery_point k f m e) as [-> | [d ->]].
Qed.

Lemma run_delivers_fetched w s ins s' acts :
  run w s ins = Some (s', acts) ->
  sent_events acts `sublist_of` (event_of w <$> (pending s ++ returned ins)).
Proof.
  revert s acts. induction ins as [|i ins IH]; intros s acts H.
  - simpl in H. simplify_eq. apply sublist_nil_l.
  - apply run_cons_inv in H as (s1 & a1 & a2 & Hs & Hr & ->).
    specialize (IH _ _ Hr). rewrite sent_events_app.
    apply step_inv in Hs. unfold pending in *.
    destruct Hs as [Hp|Hp|? ? ? Hp|? ? ? Hp|? ? ? Hp Hlt|? m e Hp Hle
                   |r m e Hp|? ? ? Hp|? ? ? Hp|? Hp|? Hp];
      rewrite Hp; simpl in IH |- *;
      rewrite ?after_delivery_sent;
      try exact IH; try (by apply sublist_cons).
    + fold (pending (after_delivery (index s) (failures s) m e).1) in IH.
      rewrite pending_after_delivery in IH. by apply sublist_cons.
    + fold (pending (after_delivery (Index m) (failures s) m e).1) in IH.
      rewrite pending_after_delivery in IH. by apply sublist_skip.
Qed.

(** X5. The delivered events, in order, are a subsequence of the events built
    from the fetch results in the order the fetches returned: the loop
    invents no event, repeats none and reorders none; each fetch result is
    delivered at most once (line 88 is the only place an event is built). *)
Theorem delivered_are_fetched (w : watch) (ins : list input)
  (s' : session) (acts : list action) :
  run w start ins = Some (s', acts) ->
  sent_events acts `sublist_of` (event_of w <$> returned ins) /\
  (length (sent_events acts) <= length (returned ins))%nat.
Proof.
  intros H. pose proof (run_delivers_fetched _ _ _ _ _ H) as Hsub.
  change (pending start) with (@nil fetched) in Hsub. simpl in Hsub.
  split; [exact Hsub|].
  apply sublist_length in Hsub. by rewrite length_fmap in Hsub.
Qed.

(** X6. A fetch that returns an error is counted as a failure whatever its index
    ([failures++], line 105).  It still reaches the consumer, with the error
    in the event, and moves the cursor, exactly when its index is above the
    cursor; with an index at or below the cursor nothing is delivered and
    only the counter and the backoff show that the fetch failed. *)
Theorem failed_fetch_turn (w : watch) (s : session) (res : payload)
  (meta : ResultMeta) (msg : string) :
  point s = AtCheckBefore ->
  let failed := (failures s + 1) mod uint_modulus arch in
  let sleep := if (0 <? backOffWait failed)%Z
               then [Timer (backOffWait failed)] else [] in
  (index s < Index meta ->
   iteration w s (res, meta, Some msg) =
     Some ({| index := Index meta; failures := failed; point := AtCheckBefore |},
           CallGet (w_t w) (w_r w) (index s)
             :: Sent (w_ch w)
                  {| CorrelationID := w_correlationID w; Result := res;
                     Meta := meta; Err := Some msg |}
             :: sleep)) /\
  (Index meta <= index s ->
   iteration w s (res, meta, Some msg) =
     Some ({| index := floor_index (index s); failures := failed;
              point := AtCheckBefore |},
           CallGet (w_t w) (w_r w) (index s) :: sleep)).
Proof.
  intros Hp failed sleep.
  rewrite (iteration_loop_body w s _ Hp). unfold loop_body.
  rewrite (count_failure_incr (failures s) meta (Some msg)) by by left.
  fold failed. split; intros Hcmp.
  - assert (Hb : (index s <? Index meta) = true) by by apply N.ltb_lt.
    rewrite Hb. rewrite floor_index_pos by lia. reflexivity.
  - assert (Hb : (index s <? Index meta) = false) by by apply N.ltb_ge.
    rewrite Hb. reflexivity.
Qed.

Lemma loop_body_counts w s f :
  get_indices (loop_body w s f).2 = [index s] /\
  sent_events (loop_body w s f).2 `sublist_of` [event_of w f] /\
  (length (timers (loop_body w s f).2) <= 1)%nat.
Proof.
  destruct f as [[res meta] err]. unfold loop_body. cbn [snd].
  destruct (index s <? Index meta);
    destruct (0 <? backOffWait (count_failure (failures s) meta err))%Z;
    simpl; repeat split; auto; by repeat constructor.
Qed.

(** X7. As long as nothing cancels and the consumer receives, the loop takes
    every fetch result it is given and is back at the head of the loop
    afterwards: it calls [getWithIndex] exactly once per result, delivers at
    most one event per result, in order, and sleeps at most once per result. *)
Theorem drive_one_call_per_result (w : watch) (s : session) (fs : list fetched) :
  point s = AtCheckBefore ->
  exists s' acts,
    drive w s fs = Some (s', acts) /\
    point s' = AtCheckBefore /\
    length (get_indices acts) = length fs /\
    sent_events acts `sublist_of` (event_of w <$> fs) /\
    (length (timers acts) <= length fs)%nat.
Proof.
  revert s. induction fs as [|f fs IH]; intros s Hp.
  - exists s, []. repeat split; auto.
  - destruct (IH (loop_body w s f).1 (loop_body_point w s f))
      as (s' & acts & Hd & Hp' & Hg & Hs & Ht).
    destruct (loop_body_counts w s f) as (Hg1 & Hs1 & Ht1).
    exists s', ((loop_body w s f).2 ++ acts).
    rewrite (drive_cons w s f fs Hp), Hd. repeat split; auto.
    + rewrite get_indices_app, length_app, Hg1, Hg. reflexivity.
    + rewrite sent_events_app, fmap_cons.
      by apply (sublist_app _ [event_of w f]).
    + rewrite timers_app, length_app. simpl. lia.
Qed.

End Watch.

Arguments CorrelationID {payload ResultMeta} u.
Arguments Result {payload ResultMeta} u.
Arguments Meta {payload ResultMeta} u.
Arguments Err {payload ResultMeta} u.
Arguments index {payload ResultMeta} s.
Arguments failures {payload ResultMeta} s.
Arguments point {payload ResultMeta} s.
Arguments AtCheckBefore {payload ResultMeta}.
Arguments InGet {payload ResultMeta}.
Arguments AtCheckAfter {payload ResultMeta} res meta err.
Arguments InSend {payload ResultMeta} res meta err.
Arguments InSleep {payload ResultMeta} wait.
Arguments Returned {payload ResultMeta}.
Arguments Panicked {payload ResultMeta}.
Arguments CtxErr {payload ResultMeta} cancelled.
Arguments GetReturns {payload ResultMeta} res meta err.
Arguments SendCompletes {payload ResultMeta}.
Arguments SendOnClosed {payload ResultMeta}.
Arguments CtxDone {payload ResultMeta}.
Arguments TimerFires {payload ResultMeta}.
Arguments CallGet {Request payload ResultMeta} t r minIndex.
Arguments Sent {Request payload ResultMeta} ch u.
Arguments Timer {Request payload ResultMeta} wait.
Arguments start {payload ResultMeta}.
Arguments goto {payload ResultMeta} s p.
Arguments event {Request payload ResultMeta} w res meta err.
Arguments event_of {Request payload ResultMeta} w f.
Arguments fetched_index {payload ResultMeta} Index f.
Arguments fetched_err {payload ResultMeta} f.
Arguments sent_events {Request payload ResultMeta} acts.
Arguments get_indices {Request payload ResultMeta} acts.
Arguments timers {Request payload ResultMeta} acts.
Arguments observes_cancellation {payload ResultMeta} s i.
Arguments step {Request payload ResultMeta} Index backOffWait arch w s i.
Arguments run {Request payload ResultMeta} Index backOffWait arch w s ins.
Arguments iteration {Request payload ResultMeta} Index backOffWait arch w s f.
Arguments drive {Request payload ResultMeta} Index backOffWait arch w s fs.
Arguments spawned {Request} payload ResultMeta ctx t r correlationID ch.
Arguments Notify {Request} payload ResultMeta c ctx t r correlationID ch running.

(** ** The loop on concrete inputs

    A watch of the health of service "web", with string payloads, a
    [ResultMeta] that carries just the index, and a backoff policy that waits
    one second after the first failure and doubles up to a minute. *)

Record IndexMeta := { meta_index : N }.

Definition at_index (k : N) : IndexMeta := {| meta_index := k |}.

Definition second : Z := 1000000000.

Definition doubling_backoff (failures : N) : Z :=
  if failures =? 0 then 0%Z
  else Z.min (second * 2 ^ Z.of_N (failures - 1)) (60 * second).

Definition svcA : watch string :=
  {| w_ctx := 1%nat; w_t := "health-services"; w_r := "web";
     w_correlationID := "svcA"; w_ch := 1%nat |}.

Definition registry : Cache :=
  {| types :=
       <["health-services" := {| Type_ := {| SupportsBlocking := true |} |}]>
         (<["prepared-query" := {| Type_ := {| SupportsBlocking := false |} |}]>
            ∅) |}.

(** The example of section 8: the first fetch returns [(v1, {Index:5}, nil)];
    the event [{svcA, v1, {Index:5}, nil}] is delivered, the cursor becomes 5
    and the next fetch is called with [minIndex] 5. *)
Example first_fetch_at_index_5 :
  run meta_index doubling_backoff W64 svcA start
    [CtxErr false; GetReturns "v1" (at_index 5) None; CtxErr false;
     SendCompletes; CtxErr false]
  = Some ({| index := 5; failures := 0; point := InGet |},
          [CallGet "health-services" "web" 0;
           Sent 1%nat {| CorrelationID := "svcA"; Result := "v1";
                         Meta := at_index 5; Err := None |};
           CallGet "health-services" "web" 5]).
Proof. reflexivity. Qed.

(** An error that comes with an unchanged index: nothing is delivered, the
    failure is counted and a one-second timer is armed before the next call. *)
Example error_with_unchanged_index :
  run meta_index doubling_backoff W64 svcA
    {| index := 5; failures := 0; point := AtCheckBefore |}
    [CtxErr false; GetReturns "v1" (at_index 5) (Some "rpc error"); CtxErr false;
     TimerFires; CtxErr false]
  = Some ({| index := 5; failures := 1; point := InGet |},
          [CallGet "health-services" "web" 5; Timer second;
           CallGet "health-services" "web" 5]).
Proof. reflexivity. Qed.

(** ** The statements at concrete inputs *)

Definition just_fetched_5 : session string IndexMeta :=
  {| index := 0; failures := 0; point := AtCheckAfter "v1" (at_index 5) None |}.

Lemma C1_witness :
  point just_fetched_5 = AtCheckAfter "v1" (at_index 5) None /\
  step meta_index doubling_backoff W64 svcA just_fetched_5 (CtxErr false)
    = Some (goto just_fetched_5 (InSend "v1" (at_index 5) None), []).
Proof.
  split; [reflexivity|].
  apply (C1_change_detection_and_delivery string string IndexMeta meta_index
           doubling_backoff W64 svcA just_fetched_5 "v1" (at_index 5) None
           eq_refl).
  reflexivity.
Defined.

Definition rising : list (fetched string IndexMeta) :=
  [("v1", at_index 5, None); ("v2", at_index 7, None); ("v3", at_index 8, None)].

Lemma C2_witness :
  StronglySorted N.lt (fetched_index meta_index <$> rising) /\
  Forall (fun f => 0 < fetched_index meta_index f /\ fetched_err f = None) rising /\
  exists s1 a1,
    drive meta_index doubling_backoff W64 svcA start rising = Some (s1, a1) /\
    sent_events a1 = event_of svcA <$> rising /\
    failures s1 = 0.
Proof.
  assert (Hs : StronglySorted N.lt (fetched_index meta_index <$> rising))
    by (repeat constructor).
  assert (Ha : Forall (fun f => 0 < fetched_index meta_index f /\ fetched_err f = None)
                 rising)
    by (repeat constructor).
  split; [exact Hs|]. split; [exact Ha|].
  exact (proj2 (C2_delivery_strictly_increasing string string IndexMeta
                  meta_index doubling_backoff W64 svcA)
           rising Hs Ha rising [] eq_refl).
Defined.

(** A first fetch at index 0 without an error: the indices are (trivially)
    strictly increasing and there is no error, yet nothing is delivered for
    index 0 and the failure counter is 1 afterwards. *)
Definition cold : list (fetched string IndexMeta) := [("v0", at_index 0, None)].

Lemma C2_counterexample :
  StronglySorted N.lt (fetched_index meta_index <$> cold) /\
  Forall (fun f => fetched_err f = None) cold /\
  drive meta_index doubling_backoff W64 svcA start cold
    = Some ({| index := 1; failures := 1; point := AtCheckBefore |},
            [CallGet "health-services" "web" 0; Timer second]) /\
  ~ (exists s1 a1,
       drive meta_index doubling_backoff W64 svcA start cold = Some (s1, a1) /\
       sent_events a1 = event_of svcA <$> cold /\
       failures s1 = 0).
Proof.
  split; [repeat constructor|]. split; [repeat constructor|].
  split; [reflexivity|].
  intros (s1 & a1 & Hd & Hsent & Hf).
  assert (E : drive meta_index doubling_backoff W64 svcA start cold
              = Some ({| index := 1; failures := 1; point := AtCheckBefore |},
                      [CallGet "health-services" "web" 0; Timer second]))
    by reflexivity.
  rewrite E in Hd. injection Hd as <- <-. discriminate Hf.
Qed.

Definition stuck_at_zero : list (fetched string IndexMeta) :=
  [("", at_index 0, None); ("", at_index 0, None); ("", at_index 0, None)].

Lemma C3_witness :
  Forall (fun f => fetched_index meta_index f = 0 /\ fetched_err f = None)
    stuck_at_zero /\
  exists s' acts,
    drive meta_index doubling_backoff W64 svcA start stuck_at_zero
      = Some (s', acts) /\
    failures s' = 3 /\
    sent_events acts = [] /\
    timers acts = [second; 2 * second; 4 * second]%Z.
Proof.
  assert (Ha : Forall (fun f => fetched_index meta_index f = 0 /\ fetched_err f = None)
                 stuck_at_zero)
    by (repeat constructor).
  split; [exact Ha|].
  exact (proj2 (C3_failure_accounting string string IndexMeta meta_index
                  doubling_backoff W64 svcA)
           start stuck_at_zero eq_refl Ha eq_refl).
Defined.

Definition two_turns : list (input string IndexMeta) :=
  [CtxErr false; GetReturns "v1" (at_index 5) None; CtxErr false; SendCompletes;
   CtxErr false; GetReturns "v1" (at_index 3) None; CtxErr false;
   CtxErr false].

Definition after_two_turns : session string IndexMeta :=
  {| index := 5; failures := 0; point := InGet |}.

Definition two_turns_actions : list (action string string IndexMeta) :=
  [CallGet "health-services" "web" 0;
   Sent 1%nat (event svcA "v1" (at_index 5) None);
   CallGet "health-services" "web" 5;
   CallGet "health-services" "web" 5].

Lemma C4_witness :
  run meta_index doubling_backoff W64 svcA start two_turns
    = Some (after_two_turns, two_turns_actions) /\
  (0 = 0 /\ Forall (fun k => 1 <= k) [5; 5]).
Proof.
  split; [reflexivity|].
  exact (proj1 (proj2 (proj2
    (C4_cursor_floor string string IndexMeta meta_index doubling_backoff W64
       svcA two_turns after_two_turns two_turns_actions eq_refl)))).
Defined.

Definition asleep : session string IndexMeta :=
  {| index := 5; failures := 2; point := InSleep (2 * second) |}.

Lemma C5_witness :
  observes_cancellation asleep CtxDone = true /\
  step meta_index doubling_backoff W64 svcA asleep CtxDone
    = Some (goto asleep Returned, []) /\
  forall j, step meta_index doubling_backoff W64 svcA (goto asleep Returned) j = None.
Proof.
  split; [reflexivity|].
  pose proof (C5_cancellation_is_silent string string IndexMeta meta_index
                doubling_backoff W64 svcA asleep CtxDone eq_refl)
    as (Hs & _ & Hn & _).
  split; [exact Hs | exact Hn].
Defined.

Definition sending_5 : session string IndexMeta :=
  {| index := 0; failures := 0; point := InSend "v1" (at_index 5) None |}.

Definition received_then_called : list (input string IndexMeta) :=
  [SendCompletes; CtxErr false].

Lemma X8_witness :
  point sending_5 = InSend "v1" (at_index 5) None /\
  step meta_index doubling_backoff W64 svcA sending_5 TimerFires = None /\
  run meta_index doubling_backoff W64 svcA sending_5 received_then_called
    = Some ({| index := 5; failures := 0; point := InGet |},
            [Sent 1%nat (event svcA "v1" (at_index 5) None);
             CallGet "health-services" "web" 5]) /\
  exists ins' a',
    received_then_called = SendCompletes :: ins' /\
    [Sent 1%nat (event svcA "v1" (at_index 5) None);
     CallGet "health-services" "web" 5]
    = Sent 1%nat (event svcA "v1" (at_index 5) None) :: a'.
Proof.
  split; [reflexivity|].
  pose proof (open_channel_send_completes_or_cancelled string string IndexMeta meta_index
                doubling_backoff W64 svcA sending_5 "v1" (at_index 5) None eq_refl)
    as (_ & Ht & _ & _ & Hpast & _).
  split; [exact Ht|]. split; [reflexivity|].
  apply (Hpast received_then_called
           {| index := 5; failures := 0; point := InGet |}
           [Sent 1%nat (event svcA "v1" (at_index 5) None);
            CallGet "health-services" "web" 5] eq_refl).
  left. discriminate.
Defined.

(** C8. The consumer has closed the channel while the goroutine is in the
    select of lines 89-93 with the context alive: the send case proceeds by
    panicking.  The send has not completed (no event is handed over, the
    cursor is not advanced) and no cancellation was observed.  From the same
    state an open channel completes the send and a cancelled context makes
    the goroutine return. *)
Theorem C8_closed_channel_send_panics :
  point sending_5 = InSend "v1" (at_index 5) None /\
  step meta_index doubling_backoff W64 svcA sending_5 SendOnClosed
    = Some ({| index := 0; failures := 0; point := Panicked |}, []) /\
  observes_cancellation sending_5 SendOnClosed = false /\
  step meta_index doubling_backoff W64 svcA sending_5 SendCompletes
    = Some ({| index := 5; failures := 0; point := AtCheckBefore |},
            [Sent 1%nat (event svcA "v1" (at_index 5) None)]) /\
  step meta_index doubling_backoff W64 svcA sending_5 CtxDone
    = Some ({| index := 0; failures := 0; point := Returned |}, []).
Proof. repeat split. Qed.

(** The backend regresses from index 5 to index 3: the cursor stays at 5. *)
Definition one_turn : list (input string IndexMeta) :=
  [CtxErr false; GetReturns "v1" (at_index 5) None; CtxErr false; SendCompletes].

Definition regressing_turn : list (input string IndexMeta) :=
  [CtxErr false; GetReturns "v0" (at_index 3) None; CtxErr false].

Lemma C9_witness :
  run meta_index doubling_backoff W64 svcA start one_turn
    = Some ({| index := 5; failures := 0; point := AtCheckBefore |},
            [CallGet "health-services" "web" 0;
             Sent 1%nat (event svcA "v1" (at_index 5) None)]) /\
  run meta_index doubling_backoff W64 svcA
      {| index := 5; failures := 0; point := AtCheckBefore |} regressing_turn
    = Some ({| index := 5; failures := 0; point := AtCheckBefore |},
            [CallGet "health-services" "web" 5]) /\
  5 <= 5.
Proof.
  split; [reflexivity|]. split; [reflexivity|].
  exact (proj1 (C9_cursor_monotone string string IndexMeta meta_index
                  doubling_backoff W64 svcA one_turn regressing_turn
                  _ _ _ _ eq_refl eq_refl)).
Defined.

Lemma C10_witness :
  run meta_index doubling_backoff W64 svcA start two_turns
    = Some (after_two_turns, two_turns_actions) /\
  Forall (fun u => meta_index (Meta u) <> 0) (sent_events two_turns_actions).
Proof.
  split; [reflexivity|].
  exact (proj1 (C10_index_zero_never_delivered string string IndexMeta meta_index
                  doubling_backoff W64 svcA two_turns after_two_turns
                  two_turns_actions eq_refl)).
Defined.


(** C7. With the context alive and the channel closed by the consumer, the
    first fetch returns [(v1, {Index:5}, nil)]: the select of lines 89-93 can
    only proceed with the send, which panics on a closed channel.  The
    goroutine does not return as on a cancellation; it panics. *)
Theorem C7_closed_channel_panics :
  run meta_index doubling_backoff W64 svcA start
    [CtxErr false; GetReturns "v1" (at_index 5) None; CtxErr false; SendOnClosed]
  = Some ({| index := 0; failures := 0; point := Panicked |},
          [CallGet "health-services" "web" 0]) /\
  run meta_index doubling_backoff W64 svcA start
    [CtxErr false; GetReturns "v1" (at_index 5) None; CtxErr false; CtxDone]
  = Some ({| index := 0; failures := 0; point := Returned |},
          [CallGet "health-services" "web" 0]).
Proof. split; reflexivity. Qed.

(** ** The further properties at concrete inputs *)

Arguments wf {payload ResultMeta} Index s.
Arguments halted {payload ResultMeta} s.
Arguments addressed {Request payload ResultMeta} w a.
Arguments returned {payload ResultMeta} ins.
Arguments ends {payload ResultMeta} i.

Lemma X1_witness :
  run meta_index doubling_backoff W64 svcA start two_turns
    = Some (after_two_turns, two_turns_actions) /\
  Forall (addressed svcA) two_turns_actions.
Proof.
  split; [reflexivity|].
  exact (run_addressed string string IndexMeta meta_index doubling_backoff W64
           svcA start two_turns after_two_turns two_turns_actions eq_refl).
Defined.

Definition slow_turn : list (input string IndexMeta) :=
  [CtxErr false; GetReturns "v1" (at_index 5) (Some "rpc error"); CtxErr false;
   SendCompletes; TimerFires; CtxErr false].

Definition after_slow_turn : session string IndexMeta :=
  {| index := 5; failures := 1; point := InGet |}.

Definition slow_turn_actions : list (action string string IndexMeta) :=
  [CallGet "health-services" "web" 0;
   Sent 1%nat (event svcA "v1" (at_index 5) (Some "rpc error"));
   Timer second;
   CallGet "health-services" "web" 5].

Lemma X2_witness :
  run meta_index doubling_backoff W64 svcA start slow_turn
    = Some (after_slow_turn, slow_turn_actions) /\
  Forall (fun i => ~ ends i) slow_turn /\
  ~ halted after_slow_turn.
Proof.
  assert (Hn : ~ halted (start (payload := string) (ResultMeta := IndexMeta)))
    by (intros [H|H]; discriminate H).
  assert (Hall : Forall (fun i => ~ ends i) slow_turn)
    by (repeat constructor; intros [H|[H|H]]; discriminate H).
  split; [reflexivity|]. split; [exact Hall|].
  exact (run_ends_only_on_cancel string string IndexMeta meta_index
           doubling_backoff W64 svcA start slow_turn after_slow_turn
           slow_turn_actions eq_refl Hn Hall).
Defined.

Lemma X3_witness :
  wf meta_index (start (payload := string)) /\
  run meta_index doubling_backoff W64 svcA start two_turns
    = Some (after_two_turns, two_turns_actions) /\
  StronglySorted N.le [0; 5; 5].
Proof.
  split; [exact I|]. split; [reflexivity|].
  exact (proj2 (run_min_index_nondecreasing string string IndexMeta meta_index
                  doubling_backoff W64 svcA start two_turns after_two_turns
                  two_turns_actions I eq_refl)).
Defined.

Lemma X4_witness :
  run meta_index doubling_backoff W64 svcA start two_turns
    = Some (after_two_turns, two_turns_actions) /\
  last (sent_events two_turns_actions)
    = Some (event svcA "v1" (at_index 5) None) /\
  index after_two_turns = 5.
Proof.
  split; [reflexivity|]. split; [reflexivity|].
  exact (cursor_follows_delivery string string IndexMeta meta_index
           doubling_backoff W64 svcA two_turns after_two_turns
           two_turns_actions eq_refl).
Defined.

Lemma X5_witness :
  run meta_index doubling_backoff W64 svcA start two_turns
    = Some (after_two_turns, two_turns_actions) /\
  [event svcA "v1" (at_index 5) None]
    `sublist_of` [event svcA "v1" (at_index 5) None;
                  event svcA "v1" (at_index 3) None].
Proof.
  split; [reflexivity|].
  exact (proj1 (delivered_are_fetched string string IndexMeta meta_index
                  doubling_backoff W64 svcA two_turns after_two_turns
                  two_turns_actions eq_refl)).
Defined.

Definition at_head_5 : session string IndexMeta :=
  {| index := 5; failures := 0; point := AtCheckBefore |}.

Lemma X6_witness :
  point at_head_5 = AtCheckBefore /\
  iteration meta_index doubling_backoff W64 svcA at_head_5
    ("v2", at_index 7, Some "rpc error")
  = Some ({| index := 7; failures := 1; point := AtCheckBefore |},
          [CallGet "health-services" "web" 5;
           Sent 1%nat (event svcA "v2" (at_index 7) (Some "rpc error"));
           Timer second]) /\
  iteration meta_index doubling_backoff W64 svcA at_head_5
    ("v1", at_index 5, Some "rpc error")
  = Some ({| index := 5; failures := 1; point := AtCheckBefore |},
          [CallGet "health-services" "web" 5; Timer second]).
Proof.
  split; [reflexivity|].
  split.
  - exact (proj1 (failed_fetch_turn string string IndexMeta meta_index
                    doubling_backoff W64 svcA at_head_5 "v2" (at_index 7)
                    "rpc error" eq_refl) eq_refl).
  - exact (proj2 (failed_fetch_turn string string IndexMeta meta_index
                    doubling_backoff W64 svcA at_head_5 "v1" (at_index 5)
                    "rpc error" eq_refl) (N.le_refl 5)).
Defined.

Lemma X7_witness :
  point at_head_5 = AtCheckBefore /\
  exists s' acts,
    drive meta_index doubling_backoff W64 svcA at_head_5 rising
      = Some (s', acts) /\
    point s' = AtCheckBefore /\
    length (get_indices acts) = length rising /\
    sent_events acts `sublist_of` (event_of svcA <$> rising) /\
    (length (timers acts) <= length rising)%nat.
Proof.
  split; [reflexivity|].
  exact (drive_one_call_per_result string string IndexMeta meta_index
           doubling_backoff W64 svcA at_head_5 rising eq_refl).
Defined.

